(** * cmd/compile/internal/gc/syntax.go: the syntax-tree node and its containers

    A shallow embedding of the [Node] payload discipline ([Val], [SetVal],
    [Opt], [SetOpt]) and of the [Nodes] container, followed by the
    properties of both.

    Go values are modelled as follows.
    - A pointer is [option positive]: [None] is [nil], [Some a] an address.
    - [int], [int8], ... are [Z]; the code below does no arithmetic on them,
      so no wrap-around arises.
    - A slice value [[]*Node] is the [list] of its elements.  Go's [len],
      indexing, element assignment and [append] are determined by that list;
      capacity and the sharing of backing arrays between different slice
      values are not represented.
    - Mutable objects live in finite maps from addresses to values, and every
      method threads the program state through the monad [M]. *)

From Stdlib Require Import ZArith String Ascii.
From stdpp Require Import base option list gmap strings.

Local Open Scope Z_scope.

(** ** Outcomes and the state-and-abort monad *)

(** The two run-time panics the code below can raise. *)
Inductive RuntimeError : Type :=
| NilDereference                 (* invalid memory address or nil pointer dereference *)
| IndexOutOfRange (i len : Z).   (* index out of range [i] with length len *)

(** A call returns normally, stops the compiler through [Fatalf], or panics.
    Each outcome carries the program state at that point. *)
Inductive outcome (St A : Type) : Type :=
| Ok (a : A) (s : St)
| Fatal (msg : string) (s : St)
| Panic (e : RuntimeError) (s : St).
Arguments Ok {St A} a s.
Arguments Fatal {St A} msg s.
Arguments Panic {St A} e s.

Definition M (St A : Type) : Type := St → outcome St A.

Definition ret {St A} (a : A) : M St A := λ s, Ok a s.

Definition bind {St A B} (c : M St A) (k : A → M St B) : M St B := λ s,
  match c s with
  | Ok a s' => k a s'
  | Fatal msg s' => Fatal msg s'
  | Panic e s' => Panic e s'
  end.

Definition modify {St} (f : St → St) : M St unit := λ s, Ok tt (f s).

Notation "x <- c ;; k" := (bind c (λ x, k))
  (at level 100, c at next level, right associativity, only parsing).
Notation "c ;;; k" := (bind c (λ _, k))
  (at level 100, right associativity, only parsing).

(** The state an outcome ends in. *)
Definition final {St A} (o : outcome St A) : St :=
  match o with Ok _ s | Fatal _ s | Panic _ s => s end.


(** ** The [Nodes] container *)

(** [*Node]: the container never looks inside the nodes it holds. *)
Definition NodePtr : Type := option positive.

(** [type Nodes struct{ slice *[]*Node }] *)
Record Nodes : Type := mkNodes { slice : option positive }.

(** The zero value of [Nodes]. *)
Definition zeroNodes : Nodes := mkNodes None.

(** Memory as the container methods see it: the [Nodes] variables that
    pointer receivers refer to, and the [[]*Node] variables that [slice]
    fields point to. *)
Record Mem : Type := mkMem {
  vars : gmap positive Nodes;
  heap : gmap positive (list NodePtr)
}.

Definition emptyMem : Mem := mkMem ∅ ∅.

(** [var c Nodes]: a zero-valued container variable at address [a]. *)
Definition declare (a : positive) (m : Mem) : Mem :=
  mkMem (<[a := zeroNodes]> (vars m)) (heap m).

(** [*p] for [p *Nodes]. *)
Definition read_var (p : option positive) : M Mem Nodes := λ m,
  match p ≫= (vars m !!.) with
  | Some c => Ok c m
  | None => Panic NilDereference m
  end.

(** [p.slice = v] for [p *Nodes]. *)
Definition set_slice (p : option positive) (v : option positive) : M Mem unit :=
  λ m,
  match p with
  | Some a =>
      match vars m !! a with
      | Some _ => Ok tt (mkMem (<[a := mkNodes v]> (vars m)) (heap m))
      | None => Panic NilDereference m
      end
  | None => Panic NilDereference m
  end.

(** [*q] for [q *[]*Node]. *)
Definition deref (q : option positive) : M Mem (list NodePtr) := λ m,
  match q ≫= (heap m !!.) with
  | Some s => Ok s m
  | None => Panic NilDereference m
  end.

(** [*q = s] for [q *[]*Node]. *)
Definition assign (q : option positive) (s : list NodePtr) : M Mem unit := λ m,
  match q with
  | Some l =>
      match heap m !! l with
      | Some _ => Ok tt (mkMem (vars m) (<[l := s]> (heap m)))
      | None => Panic NilDereference m
      end
  | None => Panic NilDereference m
  end.

(** [&s] for a slice value [s] that escapes: a new variable holding [s]. *)
Definition new_slice (s : list NodePtr) : M Mem (option positive) := λ m,
  let l := fresh (dom (heap m)) in
  Ok (Some l) (mkMem (vars m) (<[l := s]> (heap m))).

(** [len(s)] *)
Definition len (s : list NodePtr) : Z := Z.of_nat (length s).

(** [s[i]], with Go's bounds check. *)
Definition index (s : list NodePtr) (i : Z) : M Mem NodePtr := λ m,
  if decide (0 ≤ i < len s)
  then Ok (default None (s !! Z.to_nat i)) m
  else Panic (IndexOutOfRange i (len s)) m.

(** [func (n Nodes) Slice() []*Node] *)
Definition Slice (n : Nodes) : M Mem (list NodePtr) :=
  if decide (slice n = None) then ret []
  else deref (slice n).

(** [func (n Nodes) Len() int] *)
Definition Len (n : Nodes) : M Mem Z :=
  if decide (slice n = None) then ret 0
  else s <- deref (slice n);; ret (len s).

(** [func (n Nodes) Index(i int) *Node] *)
Definition Index (n : Nodes) (i : Z) : M Mem NodePtr :=
  s <- deref (slice n);; index s i.

(** [func (n Nodes) First() *Node] *)
Definition First (n : Nodes) : M Mem NodePtr :=
  s <- deref (slice n);; index s 0.

(** [func (n Nodes) Second() *Node] *)
Definition Second (n : Nodes) : M Mem NodePtr :=
  s <- deref (slice n);; index s 1.

(** [func (n *Nodes) Set(s []*Node)]; [Set_] stands for the method name
    [Set]. *)
Definition Set_ (n : option positive) (s : list NodePtr) : M Mem unit :=
  if decide (len s = 0) then set_slice n None
  else q <- new_slice s;; set_slice n q.

(** [func (n *Nodes) Set1(node *Node)] *)
Definition Set1 (n : option positive) (node : NodePtr) : M Mem unit :=
  q <- new_slice [node];; set_slice n q.

(** [func (n *Nodes) MoveNodes(n2 *Nodes)] *)
Definition MoveNodes (n n2 : option positive) : M Mem unit :=
  c2 <- read_var n2;;
  set_slice n (slice c2);;;
  set_slice n2 None.

(** [func (n Nodes) SetIndex(i int, node *Node)] *)
Definition SetIndex (n : Nodes) (i : Z) (node : NodePtr) : M Mem unit :=
  s <- deref (slice n);;
  index s i;;;
  assign (slice n) (<[Z.to_nat i := node]> s).

(** [func (n Nodes) Addr(i int) **Node]: the slot is named by the slice
    variable and the position in it. *)
Definition Addr (n : Nodes) (i : Z) : M Mem (option positive * Z) :=
  s <- deref (slice n);;
  index s i;;;
  ret (slice n, i).

(** [func (n *Nodes) Append(a ...*Node)] *)
Definition Append (n : option positive) (a : list NodePtr) : M Mem unit :=
  c <- read_var n;;
  if decide (slice c = None) then
    if decide (len a > 0) then q <- new_slice a;; set_slice n q
    else ret tt
  else
    s <- deref (slice c);;
    assign (slice c) (s ++ a).

(** [func (n *Nodes) AppendNodes(n2 *Nodes)] *)
Definition AppendNodes (n n2 : option positive) : M Mem unit :=
  c2 <- read_var n2;;
  (if decide (slice c2 = None) then ret tt
   else
     c <- read_var n;;
     if decide (slice c = None) then set_slice n (slice c2)
     else
       s <- deref (slice c);;
       s2 <- deref (slice c2);;
       assign (slice c) (s ++ s2));;;
  set_slice n2 None.

(** What a caller observes of the container variable at [p]. *)
Definition contents (p : option positive) : M Mem (list NodePtr) :=
  c <- read_var p;; Slice c.

Definition length_at (p : option positive) : M Mem Z :=
  c <- read_var p;; Len c.

(** The container value [c] holds the elements [xs] in memory [m]. *)
Definition holds (m : Mem) (c : Nodes) (xs : list NodePtr) : Prop :=
  match slice c with
  | None => xs = []
  | Some l => heap m !! l = Some xs
  end.

(** The call panicked and left the state [s] as it was. *)
Definition panics_at {St A} (s : St) (o : outcome St A) : Prop :=
  ∃ e, o = Panic e s.

(** ** Histories of a container memory *)






(** ** [Func] and [Node] *)

(** [type Func struct].  [FieldTrack] is a [map[*Sym]struct{}], a set of
    symbol addresses, [None] being the nil map. *)
Record Func : Type := mkFunc {
  Shortname : NodePtr;
  Enter : Nodes;
  Exit : Nodes;
  Cvars : Nodes;
  Dcl : list NodePtr;
  Inldcl : Nodes;
  Closgen : Z;
  Outerfunc : NodePtr;
  FieldTrack : option (gset positive);
  Outer : NodePtr;
  Ntype : NodePtr;
  Top_ : Z;
  Closure : NodePtr;
  FCurfn : NodePtr;
  Nname : NodePtr;
  Inl : Nodes;
  InlCost : Z;
  Depth : Z;
  Endlineno : Z;
  WBLineno : Z;
  Pragma : Z;
  Dupok : bool;
  Wrapper : bool;
  Needctxt : bool;
  ReflectMethod : bool
}.

(** The zero value of [Func], as [new(Func)] yields it. *)
Definition zeroFunc : Func :=
  mkFunc None zeroNodes zeroNodes zeroNodes [] zeroNodes 0 None None None None
         0 None None None zeroNodes 0 0 0 0 0 false false false false.

(** The fields of [Func] that are [Nodes] containers. *)
Definition Func_Nodes_fields : list (Func → Nodes) :=
  [Enter; Exit; Cvars; Inldcl; Inl].

Section Payload.

(** The dynamic values an [interface{}] can hold; the node code stores and
    returns them and compares the interface with [nil], nothing more. *)
Context {dyn : Type}.

(** [interface{}]: [None] is the nil interface. *)
Definition iface : Type := option dyn.

(** Modelled from the spec: the struct [Val] is declared outside this
    file.  It is the "literal/constant value" of the payload slot; the
    literal [Val{n.E}] and the selector [v.U] in [Val()] and [SetVal] fix its
    shape, one field [U] of type [interface{}]. *)
Record Val_ : Type := mkVal { U : iface }.

(** [type Node struct].  [Type_], [Func_], [Op_], [Class_], [Local_] and
    [Implicit_] are the fields [Type], [Func], [Op], [Class], [Local] and
    [Implicit]. *)
Record Node : Type := mkNode {
  Left : NodePtr;
  Right : NodePtr;
  Ninit : Nodes;
  Nbody : Nodes;
  List : Nodes;
  Rlist : Nodes;
  Type_ : option positive;
  Orig : NodePtr;
  Func_ : option positive;
  Name : option positive;
  Sym : option positive;
  E : iface;
  Xoffset : Z;
  Lineno : Z;
  Reg : Z;
  Esc : Z;
  Op_ : Z;
  Nointerface : bool;
  Ullman : Z;
  Addable : bool;
  Etype : Z;
  Bounded : bool;
  Class_ : Z;
  Embedded : Z;
  Colas : bool;
  Diag : Z;
  Noescape : bool;
  Walkdef : Z;
  Typecheck : Z;
  Local_ : bool;
  Dodata : Z;
  Initorder : Z;
  Used : bool;
  Isddd : bool;
  Implicit_ : bool;
  Addrtaken : bool;
  Assigned : bool;
  Likely : Z;
  Hasbreak : bool;
  hasVal : Z
}.

(** The zero value of [Node]: every pointer nil, every container
    uninitialised, every number 0 (so [Op] is [OXXX]), every flag false. *)
Definition zeroNode : Node :=
  mkNode None None zeroNodes zeroNodes zeroNodes zeroNodes None None None None
         None None 0 0 0 0 0 false 0 false 0 false 0 0 false 0 false 0 0 false
         0 0 false false false false false 0 false 0.

(** The fields of [Node] that are [Nodes] containers. *)
Definition Node_Nodes_fields : list (Node → Nodes) :=
  [Ninit; Nbody; List; Rlist].

(** [nd.hasVal = h] on a node value. *)
Definition with_hasVal (h : Z) (nd : Node) : Node :=
  mkNode (Left nd) (Right nd) (Ninit nd) (Nbody nd) (List nd) (Rlist nd)
         (Type_ nd) (Orig nd) (Func_ nd) (Name nd) (Sym nd) (E nd)
         (Xoffset nd) (Lineno nd) (Reg nd) (Esc nd) (Op_ nd) (Nointerface nd)
         (Ullman nd) (Addable nd) (Etype nd) (Bounded nd) (Class_ nd)
         (Embedded nd) (Colas nd) (Diag nd) (Noescape nd) (Walkdef nd)
         (Typecheck nd) (Local_ nd) (Dodata nd) (Initorder nd) (Used nd)
         (Isddd nd) (Implicit_ nd) (Addrtaken nd) (Assigned nd) (Likely nd)
         (Hasbreak nd) h.

(** [nd.E = e] on a node value. *)
Definition with_E (e : iface) (nd : Node) : Node :=
  mkNode (Left nd) (Right nd) (Ninit nd) (Nbody nd) (List nd) (Rlist nd)
         (Type_ nd) (Orig nd) (Func_ nd) (Name nd) (Sym nd) e
         (Xoffset nd) (Lineno nd) (Reg nd) (Esc nd) (Op_ nd) (Nointerface nd)
         (Ullman nd) (Addable nd) (Etype nd) (Bounded nd) (Class_ nd)
         (Embedded nd) (Colas nd) (Diag nd) (Noescape nd) (Walkdef nd)
         (Typecheck nd) (Local_ nd) (Dodata nd) (Initorder nd) (Used nd)
         (Isddd nd) (Implicit_ nd) (Addrtaken nd) (Assigned nd) (Likely nd)
         (Hasbreak nd) (hasVal nd).

(** The compiler's state as the node methods see it: the [Node] and [Func]
    objects by address, the package variable [Debug] (declared outside this
    file, an array of integers indexed by a character; an absent entry is a
    0), what [Dump] has printed so far, and the container memory. *)
Record World : Type := mkWorld {
  nodes : gmap positive Node;
  funcs : gmap positive Func;
  Debug : gmap ascii Z;
  dumped : list (string * Node);
  mem : Mem
}.

Definition with_nodes (ns : gmap positive Node) (w : World) : World :=
  mkWorld ns (funcs w) (Debug w) (dumped w) (mem w).

(** Running a container method inside the compiler's state. *)
Definition lift {A} (c : M Mem A) : M World A := λ w,
  let put m := mkWorld (nodes w) (funcs w) (Debug w) (dumped w) m in
  match c (mem w) with
  | Ok a m => Ok a (put m)
  | Fatal msg m => Fatal msg (put m)
  | Panic e m => Panic e (put m)
  end.

(** [*n] for [n *Node]. *)
Definition read_node (n : NodePtr) : M World Node := λ w,
  match n ≫= (nodes w !!.) with
  | Some nd => Ok nd w
  | None => Panic NilDereference w
  end.

(** [*f] for [f *Func]. *)
Definition read_func (f : option positive) : M World Func := λ w,
  match f ≫= (funcs w !!.) with
  | Some fn => Ok fn w
  | None => Panic NilDereference w
  end.

(** A field assignment [n.f = x] for [n *Node], [upd] being the change to
    the node value. *)
Definition update_node (n : NodePtr) (upd : Node → Node) : M World unit := λ w,
  match n with
  | Some a =>
      match nodes w !! a with
      | Some nd => Ok tt (with_nodes (<[a := upd nd]> (nodes w)) w)
      | None => Panic NilDereference w
      end
  | None => Panic NilDereference w
  end.

(** [Debug[c] = v] *)
Definition set_Debug (c : ascii) (v : Z) : M World unit :=
  modify (λ w, mkWorld (nodes w) (funcs w) (<[c := v]> (Debug w)) (dumped w) (mem w)).

(** Modelled from the spec: [Dump], the diagnostic printer, is not in this
    file.  It gives the "diagnostic context" of a fatal report: the label
    and the node as it is at the call are added to the output. *)
Definition Dump (label : string) (n : NodePtr) : M World unit :=
  nd <- read_node n;;
  modify (λ w, mkWorld (nodes w) (funcs w) (Debug w) (dumped w ++ [(label, nd)]) (mem w)).

(** Modelled from the spec: [Fatalf] is not in this file.  A fatal error
    "aborts compilation immediately": nothing after the call runs. *)
Definition Fatalf {A} (msg : string) : M World A := λ w, Fatal msg w.

(** [func (n *Node) Val() Val] *)
Definition Val (n : NodePtr) : M World Val_ :=
  nd <- read_node n;;
  if decide (hasVal nd ≠ 1) then ret (mkVal None)
  else ret (mkVal (E nd)).

(** [func (n *Node) SetVal(v Val)] *)
Definition SetVal (n : NodePtr) (v : Val_) : M World unit :=
  nd <- read_node n;;
  (if decide (hasVal nd = -1) then
     set_Debug "h" 1;;;
     Dump "have Opt" n;;;
     Fatalf "have Opt"
   else ret tt);;;
  update_node n (with_hasVal 1);;;
  update_node n (with_E (U v)).

(** [func (n *Node) Opt() interface{}] *)
Definition Opt (n : NodePtr) : M World iface :=
  nd <- read_node n;;
  if decide (hasVal nd ≠ -1) then ret None
  else ret (E nd).

(** [func (n *Node) SetOpt(x interface{})] *)
Definition SetOpt (n : NodePtr) (x : iface) : M World unit :=
  nd <- read_node n;;
  if decide (x = None ∧ hasVal nd >= 0) then ret tt
  else
    (if decide (hasVal nd = 1) then
       set_Debug "h" 1;;;
       Dump "have Val" n;;;
       Fatalf "have Val"
     else ret tt);;;
    update_node n (with_hasVal (-1));;;
    update_node n (with_E x).

(** The Go expressions [n.f.Len()] for a container field [f] of [Node], and
    [n.Func.f.Len()] for a container field [f] of [Func]. *)
Definition Node_field_Len (f : Node → Nodes) (n : NodePtr) : M World Z :=
  nd <- read_node n;; lift (Len (f nd)).

Definition Func_field_Len (f : Func → Nodes) (n : NodePtr) : M World Z :=
  nd <- read_node n;;
  fn <- read_func (Func_ nd);;
  lift (Len (f fn)).

(** Sequences of payload calls on one node. *)
Inductive call : Type :=
| CallVal
| CallSetVal (v : Val_)
| CallOpt
| CallSetOpt (x : iface).

Definition exec (n : NodePtr) (c : call) : M World unit :=
  match c with
  | CallVal => Val n;;; ret tt
  | CallSetVal v => SetVal n v
  | CallOpt => Opt n;;; ret tt
  | CallSetOpt x => SetOpt n x
  end.

Fixpoint run (n : NodePtr) (cs : list call) : M World unit :=
  match cs with
  | [] => ret tt
  | c :: cs' => exec n c;;; run n cs'
  end.

(** The marker of the node at [n], when there is one. *)
Definition marker (n : NodePtr) (w : World) : option Z :=
  hasVal <$> (n ≫= (nodes w !!.)).

(** The stored payload of the node at [n], when there is one. *)
Definition payload (n : NodePtr) (w : World) : option iface :=
  E <$> (n ≫= (nodes w !!.)).

(** The state a successful setter leaves: the node at [a] has marker [h] and
    payload [e], and nothing else has changed. *)
Definition stored (h : Z) (e : iface) (a : positive) (nd : Node) (w : World) : World :=
  with_nodes (<[a := with_E e (with_hasVal h nd)]> (nodes w)) w.

(** The state at a fatal report from a setter: the [h] flag of [Debug] is
    on and the node has been dumped under [label]; no node has changed. *)
Definition reported (label : string) (nd : Node) (w : World) : World :=
  mkWorld (nodes w) (funcs w) (<["h"%char := 1]> (Debug w))
          (dumped w ++ [(label, nd)]) (mem w).

End Payload.

Arguments Node : clear implicits.
Arguments Val_ : clear implicits.
Arguments World : clear implicits.
Arguments iface : clear implicits.
Arguments call : clear implicits.

(** ** Sample states *)

(** A node that is zero but for its marker and payload, with integers as
    the dynamic values. *)
Definition node_with (h : Z) (e : iface Z) : Node Z :=
  with_E e (with_hasVal h zeroNode).

(** A compiler state with that node at address 1 and a [Func] at address 5. *)
Definition world_with (nd : Node Z) : World Z :=
  mkWorld {[ 1%positive := nd ]} {[ 5%positive := zeroFunc ]} ∅ [] emptyMem.

Definition w_unset : World Z := world_with zeroNode.
Definition w_value : World Z := world_with (node_with 1 (Some 3)).
Definition w_opt : World Z := world_with (node_with (-1) (Some 7)).

(** Two uninitialised containers, at addresses 1 and 2. *)
Definition m_nil : Mem := declare 1 (declare 2 emptyMem).

(** [dst = [x, y]] at address 1 and [src = [z]] at address 2, the nodes
    [x], [y], [z] being at addresses 21, 22, 23. *)
Definition m_xy_z : Mem :=
  mkMem {[ 1%positive := mkNodes (Some 10%positive);
           2%positive := mkNodes (Some 11%positive) ]}
        {[ 10%positive := [Some 21%positive; Some 22%positive];
           11%positive := [Some 23%positive] ]}.

(** * Properties *)

(** ** Running the monad *)

Lemma bind_Ok {St A B} (c : M St A) (k : A → M St B) s a s' :
  c s = Ok a s' → bind c k s = k a s'.
Proof. unfold bind. by intros ->. Qed.

Lemma bind_Fatal {St A B} (c : M St A) (k : A → M St B) s msg s' :
  c s = Fatal msg s' → bind c k s = Fatal msg s'.
Proof. unfold bind. by intros ->. Qed.

Lemma bind_Panic {St A B} (c : M St A) (k : A → M St B) s e s' :
  c s = Panic e s' → bind c k s = Panic e s'.
Proof. unfold bind. by intros ->. Qed.

(** ** The payload slot *)

Section PayloadFacts.
Context {dyn : Type}.
Implicit Types (w : World dyn) (nd : Node dyn) (a : positive).
Implicit Types (x : iface dyn) (v : Val_ dyn).

Lemma with_hasVal_same nd : with_hasVal (hasVal nd) nd = nd.
Proof. by destruct nd. Qed.

Lemma mkVal_U v : mkVal (U v) = v.
Proof. by destruct v. Qed.

Lemma read_node_Some w a nd :
  nodes w !! a = Some nd → read_node (Some a) w = Ok nd w.
Proof. unfold read_node. simpl. by intros ->. Qed.

Lemma update_node_Some w a nd upd :
  nodes w !! a = Some nd →
  update_node (Some a) upd w
  = Ok tt (with_nodes (<[a := upd nd]> (nodes w)) w).
Proof. unfold update_node. by intros ->. Qed.

Lemma store_marker_then_payload w a nd h e :
  nodes w !! a = Some nd →
  (update_node (Some a) (with_hasVal h);;; update_node (Some a) (with_E e)) w
  = Ok tt (stored h e a nd w).
Proof.
  intros Hnd.
  rewrite (bind_Ok _ _ _ _ _ (update_node_Some _ _ _ _ Hnd)).
  rewrite (update_node_Some _ a (with_hasVal h nd)).
  - unfold stored. simpl. by rewrite insert_insert_eq.
  - simpl. apply lookup_insert_eq.
Qed.

Lemma stored_lookup h e a nd w :
  nodes (stored h e a nd w) !! a = Some (with_E e (with_hasVal h nd)).
Proof. simpl. apply lookup_insert_eq. Qed.

Lemma report_and_abort {A} w a nd label :
  nodes w !! a = Some nd →
  (set_Debug "h" 1;;; Dump label (Some a);;; Fatalf (A := A) label) w
  = Fatal label (reported label nd w).
Proof.
  intros Hnd. unfold bind, set_Debug, modify, Dump, bind, read_node.
  simpl. by rewrite Hnd.
Qed.

Lemma SetVal_unfold w a nd v :
  nodes w !! a = Some nd →
  SetVal (Some a) v w
  = if decide (hasVal nd = -1) then Fatal "have Opt" (reported "have Opt" nd w)
    else Ok tt (stored 1 (U v) a nd w).
Proof.
  intros Hnd. unfold SetVal.
  rewrite (bind_Ok _ _ _ _ _ (read_node_Some _ _ _ Hnd)).
  case_decide.
  - apply bind_Fatal. by apply report_and_abort.
  - rewrite (bind_Ok _ _ w tt w); [|done].
    by apply store_marker_then_payload.
Qed.

Lemma SetOpt_unfold w a nd x :
  nodes w !! a = Some nd →
  SetOpt (Some a) x w
  = if decide (x = None ∧ hasVal nd >= 0) then Ok tt w
    else if decide (hasVal nd = 1)
         then Fatal "have Val" (reported "have Val" nd w)
         else Ok tt (stored (-1) x a nd w).
Proof.
  intros Hnd. unfold SetOpt.
  rewrite (bind_Ok _ _ _ _ _ (read_node_Some _ _ _ Hnd)).
  case_decide; [done|].
  case_decide.
  - apply bind_Fatal. by apply report_and_abort.
  - rewrite (bind_Ok _ _ w tt w); [|done].
    by apply store_marker_then_payload.
Qed.

Lemma Val_unfold w a nd :
  nodes w !! a = Some nd →
  Val (Some a) w
  = Ok (if decide (hasVal nd ≠ 1) then mkVal None else mkVal (E nd)) w.
Proof.
  intros Hnd. unfold Val.
  rewrite (bind_Ok _ _ _ _ _ (read_node_Some _ _ _ Hnd)).
  by case_decide.
Qed.

Lemma Opt_unfold w a nd :
  nodes w !! a = Some nd →
  Opt (Some a) w = Ok (if decide (hasVal nd ≠ -1) then None else E nd) w.
Proof.
  intros Hnd. unfold Opt.
  rewrite (bind_Ok _ _ _ _ _ (read_node_Some _ _ _ Hnd)).
  by case_decide.
Qed.


Lemma marker_lookup w a nd : nodes w !! a = Some nd → marker (Some a) w = Some (hasVal nd).
Proof. unfold marker. simpl. by intros ->. Qed.

Lemma payload_lookup w a nd : nodes w !! a = Some nd → payload (Some a) w = Some (E nd).
Proof. unfold payload. simpl. by intros ->. Qed.

(** C1: writing the payload cross-kind is fatal.  [SetOpt] with a non-nil
    argument on a node whose marker is value-set ([+1]) ends in [Fatalf]
    ("have Val"), and [SetVal] on a node whose marker is optimizer-data-set
    ([-1]) ends in [Fatalf] ("have Opt"); at the abort no node has been
    changed, so nothing was coerced. *)
Theorem cross_kind_write_is_fatal w a nd :
  nodes w !! a = Some nd →
  (∀ x, x ≠ None → hasVal nd = 1 →
     ∃ w', SetOpt (Some a) x w = Fatal "have Val" w' ∧ nodes w' = nodes w) ∧
  (∀ v, hasVal nd = -1 →
     ∃ w', SetVal (Some a) v w = Fatal "have Opt" w' ∧ nodes w' = nodes w).
Proof.
  intros Hnd. split.
  - intros x Hx Hv. exists (reported "have Val" nd w). split; [|done].
    rewrite (SetOpt_unfold _ _ _ _ Hnd).
    rewrite decide_False by (intros [? _]; done).
    by rewrite decide_True.
  - intros v Hv. exists (reported "have Opt" nd w). split; [|done].
    rewrite (SetVal_unfold _ _ _ _ Hnd). by rewrite decide_True.
Qed.

(** C2, as amended: [SetOpt(nil)] never fails and never changes the marker
    of a node in one of the three marker states.  On a node whose marker is
    unset or value-set it changes nothing at all; on a node whose marker is
    optimizer-data-set it stores nil as the payload and changes nothing
    else. *)
Theorem SetOpt_nil_effect w a nd :
  nodes w !! a = Some nd →
  (hasVal nd >= 0 → SetOpt (Some a) None w = Ok tt w) ∧
  (hasVal nd = -1 →
     ∃ w', SetOpt (Some a) None w = Ok tt w' ∧
           marker (Some a) w' = marker (Some a) w ∧
           payload (Some a) w' = Some None ∧
           w' = with_nodes (<[a := with_E None nd]> (nodes w)) w).
Proof.
  intros Hnd. split.
  - intros Hv. rewrite (SetOpt_unfold _ _ _ _ Hnd). by rewrite decide_True.
  - intros Hv. exists (stored (-1) None a nd w).
    rewrite (SetOpt_unfold _ _ _ _ Hnd).
    rewrite decide_False by (intros [_ ?]; lia).
    rewrite decide_False by lia.
    rewrite (marker_lookup _ _ _ (stored_lookup _ _ _ _ _)).
    rewrite (payload_lookup _ _ _ (stored_lookup _ _ _ _ _)).
    rewrite (marker_lookup _ _ _ Hnd).
    repeat split.
    + simpl. by rewrite Hv.
    + unfold stored. by rewrite <- Hv, with_hasVal_same.
Qed.

(** C3: [SetOpt(nil)] never aborts, whatever the marker was, and [Opt()]
    returns nil afterwards; on a node whose marker was value-set the stored
    value is still there and [Val()] returns it as before. *)
Theorem SetOpt_nil_never_fails w a nd :
  nodes w !! a = Some nd →
  ∃ w', SetOpt (Some a) None w = Ok tt w' ∧
        Opt (Some a) w' = Ok None w' ∧
        (hasVal nd = 1 →
           payload (Some a) w' = Some (E nd) ∧
           Val (Some a) w' = Ok (mkVal (E nd)) w' ∧
           Val (Some a) w = Ok (mkVal (E nd)) w).
Proof.
  intros Hnd. rewrite (SetOpt_unfold _ _ _ _ Hnd).
  destruct (decide (hasVal nd >= 0)) as [Hge|Hlt].
  - rewrite decide_True by done. exists w. split; [done|]. split.
    + rewrite (Opt_unfold _ _ _ Hnd). rewrite decide_True by lia. done.
    + intros Hv. rewrite (payload_lookup _ _ _ Hnd).
      rewrite (Val_unfold _ _ _ Hnd). rewrite decide_False by lia. done.
  - rewrite decide_False by (intros [_ ?]; done).
    rewrite decide_False by lia.
    exists (stored (-1) None a nd w). split; [done|]. split.
    + rewrite (Opt_unfold _ _ _ (stored_lookup _ _ _ _ _)).
      done.
    + intros Hv. lia.
Qed.

(** C4: whenever [SetVal(v)] returns, [Val()] returns [v] and [Opt()] nil,
    and it returns on every node whose marker is not optimizer-data-set;
    whenever [SetOpt(x)] with non-nil [x] returns, [Opt()] returns [x] and
    [Val()] the empty [Val], and it returns on every node whose marker is
    not value-set.  The getters always return, and return the empty [Val],
    respectively nil, when the marker is not theirs. *)
Theorem getters_after_setters w a nd :
  nodes w !! a = Some nd →
  (∀ v, (hasVal nd ≠ -1 → ∃ w', SetVal (Some a) v w = Ok tt w') ∧
        (∀ w', SetVal (Some a) v w = Ok tt w' →
               Val (Some a) w' = Ok v w' ∧ Opt (Some a) w' = Ok None w')) ∧
  (∀ x, x ≠ None →
        (hasVal nd ≠ 1 → ∃ w', SetOpt (Some a) x w = Ok tt w') ∧
        (∀ w', SetOpt (Some a) x w = Ok tt w' →
               Opt (Some a) w' = Ok x w' ∧ Val (Some a) w' = Ok (mkVal None) w')) ∧
  (∃ v, Val (Some a) w = Ok v w ∧ (hasVal nd ≠ 1 → v = mkVal None)) ∧
  (∃ x, Opt (Some a) w = Ok x w ∧ (hasVal nd ≠ -1 → x = None)).
Proof.
  intros Hnd. split; [|split; [|split]].
  - intros v. split.
    + intros Hv. rewrite (SetVal_unfold _ _ _ _ Hnd).
      rewrite decide_False by done. eauto.
    + intros w'. rewrite (SetVal_unfold _ _ _ _ Hnd).
      case_decide; [done|]. intros [= <-].
      pose proof (stored_lookup 1 (U v) a nd w) as Hst. split.
      * rewrite (Val_unfold _ _ _ Hst). simpl. by rewrite mkVal_U.
      * by rewrite (Opt_unfold _ _ _ Hst).
  - intros x Hx. split.
    + intros Hv. rewrite (SetOpt_unfold _ _ _ _ Hnd).
      rewrite decide_False by (intros [? _]; done).
      rewrite decide_False by done. eauto.
    + intros w'. rewrite (SetOpt_unfold _ _ _ _ Hnd).
      rewrite decide_False by (intros [? _]; done).
      case_decide; [done|]. intros [= <-].
      pose proof (stored_lookup (-1) x a nd w) as Hst. split.
      * by rewrite (Opt_unfold _ _ _ Hst).
      * by rewrite (Val_unfold _ _ _ Hst).
  - eexists. split; [by apply Val_unfold|].
    intros Hv. by rewrite decide_True.
  - eexists. split; [by apply Opt_unfold|].
    intros Hv. by rewrite decide_True.
Qed.


(** The marker of a node being set (not [0]) survives every single call,
    whether the call returns or aborts. *)
Lemma exec_keeps_marker_set w a nd c :
  nodes w !! a = Some nd → hasVal nd ≠ 0 →
  ∃ nd', nodes (final (exec (Some a) c w)) !! a = Some nd' ∧ hasVal nd' ≠ 0.
Proof.
  intros Hnd Hset. destruct c as [|v| |x]; simpl.
  - unfold bind. rewrite (Val_unfold _ _ _ Hnd). simpl. eauto.
  - rewrite (SetVal_unfold _ _ _ _ Hnd). case_decide; simpl.
    + eauto.
    + rewrite lookup_insert_eq. eexists. split; [done|]. simpl. lia.
  - unfold bind. rewrite (Opt_unfold _ _ _ Hnd). simpl. eauto.
  - rewrite (SetOpt_unfold _ _ _ _ Hnd). repeat case_decide; simpl.
    + eauto.
    + eauto.
    + rewrite lookup_insert_eq. eexists. split; [done|]. simpl. lia.
Qed.

Lemma run_keeps_marker_set cs : ∀ w a nd,
  nodes w !! a = Some nd → hasVal nd ≠ 0 →
  ∃ nd', nodes (final (run (Some a) cs w)) !! a = Some nd' ∧ hasVal nd' ≠ 0.
Proof.
  induction cs as [|c cs IH]; intros w a nd Hnd Hset; simpl.
  - eauto.
  - destruct (exec_keeps_marker_set w a nd c Hnd Hset) as (nd' & Hnd' & Hset').
    unfold bind. destruct (exec (Some a) c w) as [[] w'|msg w'|e w']; simpl in *.
    + by apply (IH w' a nd').
    + eauto.
    + eauto.
Qed.

(** C10: on a node whose marker is optimizer-data-set, [SetOpt(nil)]
    stores nil and leaves the marker where it is, so that [Opt()] returns
    nil and [SetVal] is fatal all the same; and once the marker of a node is
    not unset, it is not unset after any sequence of [Val], [SetVal], [Opt]
    and [SetOpt] calls on it, wherever that sequence stops. *)
Theorem marker_never_returns_to_unset w a nd :
  nodes w !! a = Some nd →
  (hasVal nd = -1 →
     ∃ w', SetOpt (Some a) None w = Ok tt w' ∧
           marker (Some a) w' = Some (-1) ∧
           payload (Some a) w' = Some None ∧
           Opt (Some a) w' = Ok None w' ∧
           ∀ v, ∃ w'', SetVal (Some a) v w' = Fatal "have Opt" w'') ∧
  (hasVal nd ≠ 0 →
     ∀ cs, ∃ h, marker (Some a) (final (run (Some a) cs w)) = Some h ∧ h ≠ 0).
Proof.
  intros Hnd. split.
  - intros Hv. exists (stored (-1) None a nd w).
    pose proof (stored_lookup (-1) None a nd w) as Hst.
    rewrite (SetOpt_unfold _ _ _ _ Hnd).
    rewrite decide_False by (intros [_ ?]; lia).
    rewrite decide_False by lia.
    rewrite (marker_lookup _ _ _ Hst), (payload_lookup _ _ _ Hst).
    rewrite (Opt_unfold _ _ _ Hst).
    repeat split. intros v. rewrite (SetVal_unfold _ _ _ _ Hst). simpl. eauto.
  - intros Hset cs.
    destruct (run_keeps_marker_set cs w a nd Hnd Hset) as (nd' & Hnd' & Hset').
    exists (hasVal nd'). by rewrite (marker_lookup _ _ _ Hnd').
Qed.

(** C6, as amended: a zero-valued node reports no value and no optimizer
    data, each of its four container fields ([Ninit], [Nbody], [List],
    [Rlist]) has length 0, and its [Func] pointer is nil; each of the five
    container fields of a zero-valued [Func] has length 0; and on an
    uninitialised container [Slice()] returns the empty slice and [Len()]
    returns 0, both without a panic. *)
Theorem zero_node_is_empty w a :
  nodes w !! a = Some zeroNode →
  Val (Some a) w = Ok (mkVal None) w ∧
  Opt (Some a) w = Ok None w ∧
  Forall (λ f, Node_field_Len f (Some a) w = Ok 0 w) Node_Nodes_fields ∧
  Func_ (zeroNode (dyn := dyn)) = None ∧
  (∀ m, Forall (λ f, Len (f zeroFunc) m = Ok 0 m) Func_Nodes_fields) ∧
  (∀ m, Slice zeroNodes m = Ok [] m ∧ Len zeroNodes m = Ok 0 m).
Proof.
  intros Hnd. split; [|split; [|split; [|split; [|split]]]].
  - by rewrite (Val_unfold _ _ _ Hnd).
  - by rewrite (Opt_unfold _ _ _ Hnd).
  - assert (∀ f : Node dyn → Nodes, f zeroNode = zeroNodes →
              Node_field_Len f (Some a) w = Ok 0 w) as Hlen.
    { intros f Hf. unfold Node_field_Len.
      rewrite (bind_Ok _ _ _ _ _ (read_node_Some _ _ _ Hnd)).
      rewrite Hf. unfold lift. simpl. by destruct w. }
    unfold Node_Nodes_fields. repeat constructor; by apply Hlen.
  - done.
  - intros m. unfold Func_Nodes_fields. by repeat constructor.
  - done.
Qed.

End PayloadFacts.

(** ** The container *)

Lemma mkMem_eta m : mkMem (vars m) (heap m) = m.
Proof. by destruct m. Qed.

Lemma len_zero s : len s = 0 ↔ s = [].
Proof. unfold len. destruct s; simpl; split; intros; (done || lia). Qed.

Lemma read_var_Some m a c : vars m !! a = Some c → read_var (Some a) m = Ok c m.
Proof. unfold read_var. simpl. by intros ->. Qed.

Lemma read_var_inv m p c m' :
  read_var p m = Ok c m' → ∃ a, p = Some a ∧ vars m !! a = Some c ∧ m' = m.
Proof.
  unfold read_var. destruct p as [a|]; simpl; [|done].
  destruct (vars m !! a) as [c'|] eqn:Hc; [|done].
  intros [= <- <-]. eauto.
Qed.

Lemma set_slice_Some m a c v :
  vars m !! a = Some c →
  set_slice (Some a) v m = Ok tt (mkMem (<[a := mkNodes v]> (vars m)) (heap m)).
Proof. unfold set_slice. by intros ->. Qed.

Lemma Slice_holds m c xs : holds m c xs ↔ Slice c m = Ok xs m.
Proof.
  unfold holds, Slice, deref, ret. destruct c as [[l|]]; simpl.
  - destruct (heap m !! l) as [s|]; split; intros H; by simplify_eq.
  - split; intros H; by simplify_eq.
Qed.

Lemma Len_holds m c xs : holds m c xs → Len c m = Ok (len xs) m.
Proof.
  unfold holds, Len, deref, bind, ret. destruct c as [[l|]]; simpl.
  - by intros ->.
  - by intros ->.
Qed.

Lemma Len_inv m c k m' : Len c m = Ok k m' → ∃ xs, holds m c xs ∧ k = len xs.
Proof.
  unfold holds, Len, deref, bind, ret. destruct c as [[l|]]; simpl.
  - destruct (heap m !! l) as [s|]; [|done]. intros [= <- <-]. eauto.
  - intros [= <- <-]. by exists [].
Qed.

Lemma contents_inv m p xs m' :
  contents p m = Ok xs m' →
  ∃ a c, p = Some a ∧ vars m !! a = Some c ∧ holds m c xs ∧ m' = m.
Proof.
  unfold contents, bind. destruct (read_var p m) as [c m1| |] eqn:Hr; [|done..].
  apply read_var_inv in Hr as (a & -> & Hc & ->).
  intros HS. exists a, c. repeat split; [done| |].
  - apply Slice_holds. destruct c as [[l|]]; revert HS;
      unfold Slice, deref, ret; simpl.
    + destruct (heap m !! l); [|done]. by intros [= <- <-].
    + by intros [= <- <-].
  - destruct c as [[l|]]; revert HS; unfold Slice, deref, ret; simpl.
    + destruct (heap m !! l); [|done]. by intros [= <- <-].
    + by intros [= <- <-].
Qed.

Lemma contents_intro m a c xs :
  vars m !! a = Some c → holds m c xs → contents (Some a) m = Ok xs m.
Proof.
  intros Hc Hh. unfold contents.
  rewrite (bind_Ok _ _ _ _ _ (read_var_Some _ _ _ Hc)). by apply Slice_holds.
Qed.

Lemma length_at_intro m a c xs :
  vars m !! a = Some c → holds m c xs → length_at (Some a) m = Ok (len xs) m.
Proof.
  intros Hc Hh. unfold length_at.
  rewrite (bind_Ok _ _ _ _ _ (read_var_Some _ _ _ Hc)). by apply Len_holds.
Qed.

(** What [Append] does, in terms of the elements held. *)
Lemma Append_holds m a c xs items :
  vars m !! a = Some c → holds m c xs →
  ∃ m' c', Append (Some a) items m = Ok tt m' ∧
           vars m' !! a = Some c' ∧ holds m' c' (xs ++ items) ∧
           (items = [] → m' = m).
Proof.
  intros Hc Hh. unfold Append.
  rewrite (bind_Ok _ _ _ _ _ (read_var_Some _ _ _ Hc)).
  unfold holds in Hh. destruct c as [[l|]]; simpl in *.
  - unfold bind, deref, assign. simpl. rewrite Hh. simpl. rewrite Hh.
    eexists _, (mkNodes (Some l)). split; [done|]. simpl. repeat split; [done| |].
    + unfold holds. simpl. apply lookup_insert_eq.
    + intros ->. rewrite app_nil_r, insert_id by done. apply mkMem_eta.
  - subst xs. case_decide as Hlen.
    + unfold bind, new_slice. simpl.
      rewrite Hc.
      eexists _, _. split; [done|]. simpl. rewrite lookup_insert_eq.
      repeat split.
      * unfold holds. simpl. apply lookup_insert_eq.
      * intros ->. unfold len in Hlen. simpl in Hlen. lia.
    + assert (items = []) as -> by (apply len_zero; unfold len in *; lia).
      exists m, (mkNodes None). by repeat split.
Qed.

(** On a container that holds at least one element, positional access is
    indexing into the elements held. *)
Lemma Index_holds m c xs i :
  holds m c xs → xs ≠ [] →
  Index c i m = index xs i m ∧ First c m = index xs 0 m ∧
  Second c m = index xs 1 m.
Proof.
  unfold holds, Index, First, Second, bind, deref.
  destruct c as [[l|]]; simpl; [|done].
  by intros ->.
Qed.

(** C5: on every container, uninitialised, empty or populated, and for
    every index [i] at or beyond [Len()], [Index(i)], [SetIndex(i, node)]
    and [Addr(i)] panic, as do [First()] when [i] is 0 and [Second()] when
    [i] is 1; the memory is as before, so no other slot was read or written
    in its place. *)
Theorem out_of_bounds_access_panics m c i k node :
  Len c m = Ok k m → k ≤ i →
  panics_at m (Index c i m) ∧
  (i = 0 → panics_at m (First c m)) ∧
  (i = 1 → panics_at m (Second c m)) ∧
  panics_at m (SetIndex c i node m) ∧
  panics_at m (Addr c i m).
Proof.
  intros HLen Hle. apply Len_inv in HLen as (xs & Hh & ->).
  unfold panics_at, Index, First, Second, SetIndex, Addr, bind, deref.
  unfold holds in Hh. destruct c as [[l|]]; simpl in *.
  - rewrite Hh. unfold index.
    rewrite decide_False by lia.
    repeat split; eauto.
    + intros ->. rewrite decide_False by lia. eauto.
    + intros ->. rewrite decide_False by lia. eauto.
  - repeat split; eauto.
Qed.

(** C7: whatever the container at [a] was, after [Set(s)] it holds exactly
    [s]; and after [Set] of an empty slice the container is the zero value
    again, the memory being what declaring a new container at [a] gives, so
    that its length is 0 and [Append] does there what it does on a newly
    declared container, leaving exactly the appended items. *)
Theorem Set_replaces_contents m a c s :
  vars m !! a = Some c →
  ∃ m', Set_ (Some a) s m = Ok tt m' ∧
        contents (Some a) m' = Ok s m' ∧
        (s = [] →
           m' = declare a m ∧
           vars m' !! a = Some zeroNodes ∧
           length_at (Some a) m' = Ok 0 m' ∧
           ∀ items,
             Append (Some a) items m' = Append (Some a) items (declare a m) ∧
             ∃ m'', Append (Some a) items m' = Ok tt m'' ∧
                    contents (Some a) m'' = Ok items m'').
Proof.
  intros Hc. unfold Set_. case_decide as Hlen.
  - apply len_zero in Hlen as ->.
    rewrite (set_slice_Some _ _ _ _ Hc). fold (declare a m).
    assert (vars (declare a m) !! a = Some zeroNodes) as Hz
      by apply lookup_insert_eq.
    eexists. split; [done|]. split.
    + by apply (contents_intro _ _ _ _ Hz).
    + intros _. repeat split; [done|..].
      * by apply (length_at_intro _ _ _ [] Hz).
      * destruct (Append_holds _ _ _ [] items Hz eq_refl)
          as (m'' & c' & HA & Hc' & Hh' & _).
        exists m''. split; [done|]. by apply (contents_intro _ _ _ _ Hc').
  - unfold bind, new_slice. simpl. rewrite Hc.
    eexists. split; [done|]. split.
    + eapply contents_intro; [apply lookup_insert_eq|].
      unfold holds. simpl. apply lookup_insert_eq.
    + intros ->. by destruct Hlen.
Qed.

(** C8: [Append(a1, ..., ak)] leaves the container holding what it held
    followed by [a1, ..., ak] in that order, and appending no items changes
    nothing; on an empty container, [Append(a, b, d)] gives [Len() == 3],
    [First() == a], [Second() == b] and [Index(1) == b]. *)
Theorem Append_appends m p xs items :
  contents p m = Ok xs m →
  ∃ m', Append p items m = Ok tt m' ∧
        contents p m' = Ok (xs ++ items) m' ∧
        (items = [] → m' = m) ∧
        (xs = [] → ∀ a b d, items = [a; b; d] →
           ∃ c', read_var p m' = Ok c' m' ∧
                 Len c' m' = Ok 3 m' ∧
                 First c' m' = Ok a m' ∧
                 Second c' m' = Ok b m' ∧
                 Index c' 1 m' = Ok b m').
Proof.
  intros Hcont. apply contents_inv in Hcont as (a & c & -> & Hc & Hh & _).
  destruct (Append_holds _ _ _ _ items Hc Hh) as (m' & c' & HA & Hc' & Hh' & Hnil).
  exists m'. split; [done|]. split; [by apply (contents_intro _ _ _ _ Hc')|].
  split; [done|].
  intros -> x y z ->. exists c'. simpl in Hh'.
  split; [by apply read_var_Some|].
  split; [by apply (Len_holds _ _ _ Hh')|].
  destruct (Index_holds m' c' [x; y; z] 1 Hh') as (HI & HF & HS); [done|].
  by rewrite HI, HF, HS.
Qed.

(** C9: for two different containers, [dst.AppendNodes(src)] leaves [dst]
    holding what it held followed by what [src] held, in that order, and
    [src] with length 0, whether either was empty or not (and also when both
    pointed at the same slice). *)
Theorem AppendNodes_moves m dst src xs ys :
  dst ≠ src →
  contents (Some dst) m = Ok xs m →
  contents (Some src) m = Ok ys m →
  ∃ m', AppendNodes (Some dst) (Some src) m = Ok tt m' ∧
        contents (Some dst) m' = Ok (xs ++ ys) m' ∧
        length_at (Some src) m' = Ok 0 m'.
Proof.
  intros Hne Hd Hs.
  apply contents_inv in Hd as (? & c & [= <-] & Hc & Hh & _).
  apply contents_inv in Hs as (? & c2 & [= <-] & Hc2 & Hh2 & _).
  unfold AppendNodes.
  rewrite (bind_Ok _ _ _ _ _ (read_var_Some _ _ _ Hc2)).
  assert (∀ vs h, length_at (Some src)
            (mkMem (<[src := mkNodes None]> vs) h)
          = Ok 0 (mkMem (<[src := mkNodes None]> vs) h)) as Hsrc.
  { intros vs h. apply (length_at_intro _ _ (mkNodes None) []); [|done].
    apply lookup_insert_eq. }
  unfold holds in Hh, Hh2. destruct c2 as [[l2|]]; simpl in *.
  - destruct c as [[l|]]; simpl in *.
    + unfold bind, read_var, deref, assign, set_slice. simpl.
      repeat (simpl; first [rewrite Hc | rewrite Hh | rewrite Hh2 | rewrite Hc2]).
      eexists. split; [done|]. split; [|apply Hsrc].
      eapply contents_intro.
      * simpl. by rewrite lookup_insert_ne.
      * unfold holds. simpl. apply lookup_insert_eq.
    + subst xs. unfold bind, read_var, set_slice. simpl.
      repeat (simpl; first [rewrite Hc | rewrite Hc2
                           | rewrite lookup_insert_ne by done]).
      eexists. split; [done|]. split; [|apply Hsrc].
      eapply contents_intro.
      * simpl. rewrite lookup_insert_ne by done. apply lookup_insert_eq.
      * done.
  - subst ys. unfold bind, ret, set_slice. rewrite Hc2.
    eexists. split; [done|]. split; [|apply Hsrc].
    rewrite app_nil_r. eapply contents_intro.
    + simpl. by rewrite lookup_insert_ne.
    + done.
Qed.

(** ** The properties at sample states *)

Lemma cross_kind_write_is_fatal_witness :
  (∃ w', SetOpt (Some 1%positive) (Some 5) w_value = Fatal "have Val" w' ∧
         nodes w' = nodes w_value) ∧
  (∃ w', SetVal (Some 1%positive) (mkVal (Some 5)) w_opt = Fatal "have Opt" w' ∧
         nodes w' = nodes w_opt).
Proof.
  split.
  - apply (cross_kind_write_is_fatal w_value 1 (node_with 1 (Some 3)));
      [reflexivity | discriminate | reflexivity].
  - apply (cross_kind_write_is_fatal w_opt 1 (node_with (-1) (Some 7)));
      reflexivity.
Defined.

(** C2 as stated fails: on a node holding optimizer data, [SetOpt(nil)]
    does not leave the stored payload as it was. *)
Lemma SetOpt_nil_clears_optimizer_data :
  ¬ (∃ w', SetOpt (Some 1%positive) None w_opt = Ok tt w' ∧
           marker (Some 1%positive) w' = marker (Some 1%positive) w_opt ∧
           payload (Some 1%positive) w' = payload (Some 1%positive) w_opt).
Proof.
  intros (w' & HS & _ & Hp).
  rewrite (SetOpt_unfold w_opt 1 (node_with (-1) (Some 7))) in HS by reflexivity.
  simpl in HS. injection HS as <-.
  vm_compute in Hp. discriminate.
Qed.

Lemma SetOpt_nil_effect_witness :
  SetOpt (Some 1%positive) None w_value = Ok tt w_value ∧
  SetOpt (Some 1%positive) None w_unset = Ok tt w_unset ∧
  ∃ w', SetOpt (Some 1%positive) None w_opt = Ok tt w' ∧
        marker (Some 1%positive) w' = marker (Some 1%positive) w_opt ∧
        payload (Some 1%positive) w' = Some None ∧
        w' = with_nodes (<[1%positive := with_E None (node_with (-1) (Some 7))]>
                           (nodes w_opt)) w_opt.
Proof.
  split; [|split].
  - apply (SetOpt_nil_effect w_value 1 (node_with 1 (Some 3))); [reflexivity|].
    simpl. lia.
  - apply (SetOpt_nil_effect w_unset 1 zeroNode); [reflexivity|].
    simpl. lia.
  - apply (SetOpt_nil_effect w_opt 1 (node_with (-1) (Some 7))); reflexivity.
Defined.

Lemma SetOpt_nil_never_fails_witness :
  ∃ w', SetOpt (Some 1%positive) None w_value = Ok tt w' ∧
        Opt (Some 1%positive) w' = Ok None w' ∧
        payload (Some 1%positive) w' = Some (Some 3) ∧
        Val (Some 1%positive) w' = Ok (mkVal (Some 3)) w' ∧
        Val (Some 1%positive) w_value = Ok (mkVal (Some 3)) w_value.
Proof.
  destruct (SetOpt_nil_never_fails w_value 1 (node_with 1 (Some 3)) eq_refl)
    as (w' & HS & HO & HV).
  exists w'. split; [exact HS|]. split; [exact HO|]. apply HV. reflexivity.
Defined.

Lemma getters_after_setters_witness :
  (∃ w', SetVal (Some 1%positive) (mkVal (Some 4)) w_unset = Ok tt w' ∧
         Val (Some 1%positive) w' = Ok (mkVal (Some 4)) w' ∧
         Opt (Some 1%positive) w' = Ok None w') ∧
  (∃ w', SetOpt (Some 1%positive) (Some 9) w_unset = Ok tt w' ∧
         Opt (Some 1%positive) w' = Ok (Some 9) w' ∧
         Val (Some 1%positive) w' = Ok (mkVal None) w') ∧
  Val (Some 1%positive) w_unset = Ok (mkVal None) w_unset ∧
  Opt (Some 1%positive) w_unset = Ok None w_unset.
Proof.
  destruct (getters_after_setters w_unset 1 zeroNode eq_refl)
    as (HV & HO & (v & Hv & Hv0) & (x & Hx & Hx0)).
  split; [|split; [|split]].
  - destruct (HV (mkVal (Some 4))) as [Hret Hafter].
    destruct Hret as [w' Hw']; [discriminate|].
    exists w'. split; [exact Hw'|]. apply Hafter, Hw'.
  - destruct (HO (Some 9)) as [Hret Hafter]; [discriminate|].
    destruct Hret as [w' Hw']; [discriminate|].
    exists w'. split; [exact Hw'|]. apply Hafter, Hw'.
  - rewrite <- (Hv0 ltac:(discriminate)). exact Hv.
  - rewrite <- (Hx0 ltac:(discriminate)). exact Hx.
Defined.

Lemma out_of_bounds_access_panics_witness :
  (panics_at m_xy_z (Index (mkNodes (Some 10%positive)) 2 m_xy_z) ∧
   panics_at m_xy_z (SetIndex (mkNodes (Some 10%positive)) 2 (Some 23%positive) m_xy_z) ∧
   panics_at m_xy_z (Addr (mkNodes (Some 10%positive)) 2 m_xy_z)) ∧
  panics_at m_nil (First zeroNodes m_nil) ∧
  panics_at m_xy_z (Second (mkNodes (Some 11%positive)) m_xy_z).
Proof.
  split; [|split].
  - destruct (out_of_bounds_access_panics m_xy_z (mkNodes (Some 10%positive))
                2 2 (Some 23%positive) eq_refl ltac:(lia))
      as (HI & _ & _ & HS & HA).
    split; [exact HI|]. split; [exact HS|exact HA].
  - destruct (out_of_bounds_access_panics m_nil zeroNodes 0 0 None eq_refl
                ltac:(lia)) as (_ & HF & _).
    apply HF. reflexivity.
  - destruct (out_of_bounds_access_panics m_xy_z (mkNodes (Some 11%positive))
                1 1 None eq_refl ltac:(lia)) as (_ & _ & HS & _).
    apply HS. reflexivity.
Defined.

(** C6 as stated fails: a zero-valued node has no [Func], so reading the
    length of a container field of its [Func] panics instead of giving 0. *)
Lemma zero_node_has_no_Func_fields :
  Func_field_Len Enter (Some 1%positive) w_unset
    = Panic NilDereference w_unset ∧
  ¬ Forall (λ f, ∃ w', Func_field_Len f (Some 1%positive) w_unset = Ok 0 w')
           Func_Nodes_fields.
Proof.
  split; [reflexivity|].
  intros H. apply Forall_cons in H as [[w' Hw'] _]. discriminate Hw'.
Qed.

Lemma zero_node_is_empty_witness :
  Val (Some 1%positive) w_unset = Ok (mkVal None) w_unset ∧
  Opt (Some 1%positive) w_unset = Ok None w_unset ∧
  Forall (λ f, Node_field_Len f (Some 1%positive) w_unset = Ok 0 w_unset)
         Node_Nodes_fields ∧
  Func_ (zeroNode (dyn := Z)) = None ∧
  (∀ m, Forall (λ f, Len (f zeroFunc) m = Ok 0 m) Func_Nodes_fields) ∧
  (∀ m, Slice zeroNodes m = Ok [] m ∧ Len zeroNodes m = Ok 0 m).
Proof. apply (zero_node_is_empty w_unset 1). reflexivity. Defined.

Lemma Set_replaces_contents_witness :
  (∃ m', Set_ (Some 1%positive) [Some 23%positive] m_xy_z = Ok tt m' ∧
         contents (Some 1%positive) m' = Ok [Some 23%positive] m') ∧
  (∃ m', Set_ (Some 1%positive) [] m_xy_z = Ok tt m' ∧
         m' = declare 1 m_xy_z ∧
         length_at (Some 1%positive) m' = Ok 0 m' ∧
         ∃ m'', Append (Some 1%positive) [Some 21%positive] m' = Ok tt m'' ∧
                contents (Some 1%positive) m'' = Ok [Some 21%positive] m'').
Proof.
  split.
  - destruct (Set_replaces_contents m_xy_z 1 (mkNodes (Some 10%positive))
                [Some 23%positive] eq_refl) as (m' & HS & HC & _).
    exists m'. split; [exact HS|exact HC].
  - destruct (Set_replaces_contents m_xy_z 1 (mkNodes (Some 10%positive))
                [] eq_refl) as (m' & HS & _ & Hnil).
    destruct (Hnil eq_refl) as (Hm & _ & HL & HA).
    exists m'. split; [exact HS|]. split; [exact Hm|]. split; [exact HL|].
    apply (HA [Some 21%positive]).
Defined.

Lemma Append_appends_witness :
  ∃ m' c', Append (Some 1%positive)
             [Some 21%positive; Some 22%positive; Some 23%positive] m_nil
           = Ok tt m' ∧
           read_var (Some 1%positive) m' = Ok c' m' ∧
           Len c' m' = Ok 3 m' ∧
           First c' m' = Ok (Some 21%positive) m' ∧
           Second c' m' = Ok (Some 22%positive) m' ∧
           Index c' 1 m' = Ok (Some 22%positive) m'.
Proof.
  destruct (Append_appends m_nil (Some 1%positive) []
              [Some 21%positive; Some 22%positive; Some 23%positive] eq_refl)
    as (m' & HA & _ & _ & Hex).
  destruct (Hex eq_refl _ _ _ eq_refl) as (c' & Hc').
  exists m', c'. split; [exact HA|exact Hc'].
Defined.

Lemma AppendNodes_moves_witness :
  ∃ m', AppendNodes (Some 1%positive) (Some 2%positive) m_xy_z = Ok tt m' ∧
        contents (Some 1%positive) m'
          = Ok [Some 21%positive; Some 22%positive; Some 23%positive] m' ∧
        length_at (Some 2%positive) m' = Ok 0 m'.
Proof.
  apply (AppendNodes_moves m_xy_z 1 2 [Some 21%positive; Some 22%positive]
           [Some 23%positive]); [discriminate | reflexivity | reflexivity].
Defined.

Lemma marker_never_returns_to_unset_witness :
  (∃ w', SetOpt (Some 1%positive) None w_opt = Ok tt w' ∧
         marker (Some 1%positive) w' = Some (-1) ∧
         payload (Some 1%positive) w' = Some None ∧
         Opt (Some 1%positive) w' = Ok None w' ∧
         ∀ v, ∃ w'', SetVal (Some 1%positive) v w' = Fatal "have Opt" w'') ∧
  (∃ h, marker (Some 1%positive)
          (final (run (Some 1%positive)
                    [CallSetOpt None; CallOpt; CallVal; CallSetVal (mkVal None)]
                    w_opt)) = Some h ∧ h ≠ 0).
Proof.
  destruct (marker_never_returns_to_unset w_opt 1 (node_with (-1) (Some 7))
              eq_refl) as [Hclear Hinv].
  split.
  - apply Hclear. reflexivity.
  - apply Hinv. discriminate.
Defined.

(** * Further properties *)

(** ** Reading a container *)

Lemma index_Some xs i x m :
  0 ≤ i → xs !! Z.to_nat i = Some x → index xs i m = Ok x m.
Proof.
  intros Hi Hx. unfold index, len.
  pose proof (lookup_lt_Some _ _ _ Hx).
  rewrite decide_True by lia. unfold NodePtr in *. by rewrite Hx.
Qed.

(** X1: [Len()] is the length of [Slice()]: where [Slice()] returns, it
    leaves the memory as it was and [Len()] returns the length of its
    result; where it panics, [Len()] panics alike. *)
Theorem Len_is_length_of_Slice m c :
  match Slice c m with
  | Ok xs m' => m' = m ∧ Len c m = Ok (len xs) m
  | Panic e m' => Len c m = Panic e m'
  | Fatal _ _ => False
  end.
Proof.
  unfold Slice, Len, deref, bind, ret. destruct c as [[l|]]; simpl.
  - by destruct (heap m !! l).
  - done.
Qed.

(** X2: within bounds, [Index(i)] returns element [i] of [Slice()],
    [First()] element 0 and [Second()] element 1, and [Addr(i)] names slot
    [i] of the slice variable; none of them changes the memory. *)
Theorem Index_reads_Slice m c xs i x :
  Slice c m = Ok xs m → 0 ≤ i → xs !! Z.to_nat i = Some x →
  Index c i m = Ok x m ∧
  Addr c i m = Ok (slice c, i) m ∧
  (i = 0 → First c m = Ok x m) ∧
  (i = 1 → Second c m = Ok x m).
Proof.
  intros HS Hi Hx. apply Slice_holds in HS.
  assert (xs ≠ []) as Hne by (intros ->; done).
  destruct (Index_holds m c xs i HS Hne) as (HI & HF & HSec).
  pose proof (index_Some xs i x m Hi Hx) as Hix.
  rewrite HI, HF, HSec. split; [done|]. split.
  - unfold Addr, bind, deref. unfold holds in HS.
    destruct c as [[l|]]; simpl in *; [|by subst].
    by rewrite HS, Hix.
  - split; by intros ->.
Qed.

(** X3: within bounds, [SetIndex(i, node)] on a container value replaces
    element [i] and nothing else: afterwards [Slice()] is the old slice with
    position [i] replaced, [Index(i)] returns [node], the length is the
    same, and every container variable that had this value holds the
    updated elements. *)
Theorem SetIndex_then_Index m c xs i node :
  Slice c m = Ok xs m → 0 ≤ i < len xs →
  ∃ m', SetIndex c i node m = Ok tt m' ∧
        Slice c m' = Ok (<[Z.to_nat i := node]> xs) m' ∧
        Index c i m' = Ok node m' ∧
        Len c m' = Ok (len xs) m' ∧
        ∀ p, read_var p m = Ok c m →
             contents p m' = Ok (<[Z.to_nat i := node]> xs) m'.
Proof.
  intros HS Hi. apply Slice_holds in HS. unfold holds in HS.
  destruct c as [[l|]]; simpl in *; [|subst; unfold len in Hi; simpl in Hi; lia].
  assert (Z.to_nat i < length xs)%nat as Hlt by (unfold len in Hi; lia).
  destruct (lookup_lt_is_Some_2 xs _ Hlt) as [x Hx].
  set (m' := mkMem (vars m) (<[l := <[Z.to_nat i := node]> xs]> (heap m))).
  assert (holds m' (mkNodes (Some l)) (<[Z.to_nat i := node]> xs)) as Hh'.
  { unfold holds. simpl. apply lookup_insert_eq. }
  exists m'. split.
  - unfold SetIndex, bind, deref, assign. simpl.
    rewrite HS, (index_Some xs i x m) by (done || lia). by rewrite HS.
  - split; [by apply Slice_holds|]. split; [|split].
    + destruct (Index_holds _ _ _ i Hh') as (-> & _).
      * intros Hnil. apply (f_equal length) in Hnil.
        rewrite length_insert in Hnil. simpl in Hnil. lia.
      * apply index_Some; [lia|]. by apply list_lookup_insert_eq.
    + rewrite (Len_holds _ _ _ Hh'). unfold len. by rewrite length_insert.
    + intros p Hp. apply read_var_inv in Hp as (a & -> & Hc & _).
      by apply (contents_intro m' a (mkNodes (Some l))).
Qed.

(** ** Replacing and moving *)

Lemma Nodes_eta c : mkNodes (slice c) = c.
Proof. by destruct c. Qed.

(** A slice variable that exists is not the one [&s] creates. *)
Lemma fresh_slice_ne m l xs :
  heap m !! l = Some xs → l ≠ fresh (dom (heap m)).
Proof.
  intros Hl ->. apply (is_fresh (dom (heap m))). apply elem_of_dom. eauto.
Qed.

(** X4: whatever the container held, after [Set1(node)] it holds exactly
    [[node]]: its length is 1 and [First()] returns [node]; [Set1(node)]
    does what [Set] does with the one-element slice. *)
Theorem Set1_singleton m a c node :
  vars m !! a = Some c →
  ∃ m' c', Set1 (Some a) node m = Ok tt m' ∧
           Set_ (Some a) [node] m = Ok tt m' ∧
           contents (Some a) m' = Ok [node] m' ∧
           length_at (Some a) m' = Ok 1 m' ∧
           read_var (Some a) m' = Ok c' m' ∧
           First c' m' = Ok node m'.
Proof.
  intros Hc.
  set (l := fresh (dom (heap m))).
  set (m' := mkMem (<[a := mkNodes (Some l)]> (vars m)) (<[l := [node]]> (heap m))).
  assert (vars m' !! a = Some (mkNodes (Some l))) as Hc' by apply lookup_insert_eq.
  assert (holds m' (mkNodes (Some l)) [node]) as Hh'
    by (unfold holds; simpl; apply lookup_insert_eq).
  assert (Set1 (Some a) node m = Ok tt m') as HS.
  { unfold Set1, bind, new_slice, set_slice. simpl. by rewrite Hc. }
  exists m', (mkNodes (Some l)). repeat split; try done.
  - by apply (contents_intro _ _ _ _ Hc').
  - by apply (length_at_intro _ _ _ [node] Hc').
  - by apply read_var_Some.
  - destruct (Index_holds _ _ _ 0 Hh') as (_ & -> & _); done.
Qed.

(** X5: for two different containers, [dst.MoveNodes(src)] leaves [dst]
    holding what [src] held, whatever [dst] held before, and [src] with
    length 0.  The storage is handed over, not copied: [dst] has the value
    [src] had, and no slice variable is written. *)
Theorem MoveNodes_moves m dst src c c2 ys :
  dst ≠ src →
  vars m !! dst = Some c → vars m !! src = Some c2 → Slice c2 m = Ok ys m →
  ∃ m', MoveNodes (Some dst) (Some src) m = Ok tt m' ∧
        contents (Some dst) m' = Ok ys m' ∧
        length_at (Some src) m' = Ok 0 m' ∧
        vars m' !! dst = Some c2 ∧
        heap m' = heap m.
Proof.
  intros Hne Hc Hc2 HS. apply Slice_holds in HS.
  set (m' := mkMem (<[src := mkNodes None]> (<[dst := c2]> (vars m))) (heap m)).
  assert (vars m' !! dst = Some c2) as Hd'.
  { simpl. rewrite lookup_insert_ne by done. apply lookup_insert_eq. }
  assert (vars m' !! src = Some (mkNodes None)) as Hs' by apply lookup_insert_eq.
  exists m'. split; [|split; [|split]].
  - unfold MoveNodes.
    rewrite (bind_Ok _ _ _ _ _ (read_var_Some _ _ _ Hc2)).
    unfold bind, set_slice. rewrite Hc. simpl.
    rewrite lookup_insert_ne by done. rewrite Hc2. by rewrite Nodes_eta.
  - by apply (contents_intro _ _ _ _ Hd').
  - by apply (length_at_intro _ _ _ [] Hs').
  - done.
Qed.

(** X6: a container moved or appended to itself ends up empty:
    [c.MoveNodes(c)] and [c.AppendNodes(c)] both return and leave [c] with
    length 0. *)
Theorem self_move_empties m p xs :
  contents p m = Ok xs m →
  (∃ m', MoveNodes p p m = Ok tt m' ∧ length_at p m' = Ok 0 m') ∧
  (∃ m', AppendNodes p p m = Ok tt m' ∧ length_at p m' = Ok 0 m').
Proof.
  intros Hcont. apply contents_inv in Hcont as (a & c & -> & Hc & Hh & _).
  assert (∀ vs h, length_at (Some a)
            (mkMem (<[a := mkNodes None]> vs) h)
          = Ok 0 (mkMem (<[a := mkNodes None]> vs) h)) as Hlen.
  { intros vs h. apply (length_at_intro _ _ (mkNodes None) []); [|done].
    apply lookup_insert_eq. }
  split.
  - unfold MoveNodes.
    rewrite (bind_Ok _ _ _ _ _ (read_var_Some _ _ _ Hc)).
    unfold bind, set_slice. rewrite Hc. simpl. rewrite lookup_insert_eq.
    eexists. split; [done|]. apply Hlen.
  - unfold AppendNodes.
    rewrite (bind_Ok _ _ _ _ _ (read_var_Some _ _ _ Hc)).
    unfold holds in Hh. destruct c as [[l|]]; simpl in *.
    + unfold bind, read_var, deref, assign, set_slice.
      repeat (simpl; first [rewrite Hc | rewrite Hh]).
      eexists. split; [done|]. apply Hlen.
    + unfold bind, ret, set_slice. rewrite Hc.
      eexists. split; [done|]. apply Hlen.
Qed.


(** X8: what a copy of the container value sees of an [Append].  If the
    copy was taken when the container had storage, it holds the appended
    items too; if it was taken when the container was uninitialised, it
    stays empty while the container itself holds the items. *)
Theorem Append_seen_by_copies m a c xs items :
  vars m !! a = Some c → Slice c m = Ok xs m →
  ∃ m', Append (Some a) items m = Ok tt m' ∧
        contents (Some a) m' = Ok (xs ++ items) m' ∧
        (slice c ≠ None → Slice c m' = Ok (xs ++ items) m') ∧
        (slice c = None → Slice c m' = Ok [] m').
Proof.
  intros Hc HS. apply Slice_holds in HS.
  destruct (Append_holds _ _ _ _ items Hc HS) as (m' & c' & HA & Hc' & Hh' & _).
  exists m'. split; [done|]. split; [by apply (contents_intro _ _ _ _ Hc')|].
  split.
  - intros Hsl. apply Slice_holds. revert HA. unfold Append.
    rewrite (bind_Ok _ _ _ _ _ (read_var_Some _ _ _ Hc)).
    rewrite decide_False by done.
    unfold holds in *. destruct c as [[l|]]; simpl in *; [|done].
    unfold bind, deref, assign. simpl. rewrite HS. simpl. rewrite HS.
    intros [= <-]. simpl. apply lookup_insert_eq.
  - intros Hsl. unfold Slice. by rewrite decide_True.
Qed.

(** X9: [Set] gives the container new storage and leaves the old alone:
    every container value holds after [Set(s)] what it held before, a copy
    of the container's old value included, and no other container variable
    is written. *)
Theorem Set_leaves_old_storage m a c s :
  vars m !! a = Some c →
  ∃ m', Set_ (Some a) s m = Ok tt m' ∧
        (∀ c0 xs, Slice c0 m = Ok xs m → Slice c0 m' = Ok xs m') ∧
        (∀ b, b ≠ a → vars m' !! b = vars m !! b).
Proof.
  intros Hc. unfold Set_. case_decide as Hlen.
  - rewrite (set_slice_Some _ _ _ _ Hc). eexists. split; [done|]. split.
    + intros c0 xs H0. apply Slice_holds. by apply Slice_holds in H0.
    + intros b Hb. simpl. by rewrite lookup_insert_ne.
  - unfold bind, new_slice. simpl. rewrite Hc.
    eexists. split; [done|]. split.
    + intros c0 xs H0. apply Slice_holds. apply Slice_holds in H0.
      unfold holds in *. destruct (slice c0) as [l|]; [|done]. simpl.
      rewrite lookup_insert_ne; [done|].
      intros Heq. by apply (fresh_slice_ne _ _ _ H0).
    + intros b Hb. simpl. by rewrite lookup_insert_ne.
Qed.


(** X11: [AppendNodes] from an uninitialised source changes nothing at all
    and never looks at its receiver: it returns even when the receiver is
    nil. *)
Theorem AppendNodes_from_uninitialised m n src :
  vars m !! src = Some zeroNodes →
  AppendNodes n (Some src) m = Ok tt m.
Proof.
  intros Hs. unfold AppendNodes.
  rewrite (bind_Ok _ _ _ _ _ (read_var_Some _ _ _ Hs)). simpl.
  unfold bind, ret, set_slice. rewrite Hs.
  rewrite (insert_id (vars m) src zeroNodes Hs). by rewrite mkMem_eta.
Qed.

(** ** The normal form of containers *)


















(** ** More on the payload slot *)

Section PayloadMore.
Context {dyn : Type}.
Implicit Types (w : World dyn) (nd : Node dyn) (a : positive).
Implicit Types (x : iface dyn) (v : Val_ dyn).

Lemma payload_restored nd h e :
  with_E (E nd) (with_hasVal (hasVal nd) (with_E e (with_hasVal h nd))) = nd.
Proof. by destruct nd. Qed.

Lemma stored_twice h e h' e' a nd w :
  stored h' e' a (with_E e (with_hasVal h nd)) (stored h e a nd w)
  = stored h' e' a nd w.
Proof.
  unfold stored, with_nodes. simpl. by rewrite insert_insert_eq.
Qed.

(** X13: of two [SetVal] calls in a row the second decides: the outcome and
    the whole state are those of the second call alone, for every receiver
    and in every state (the fatal and the nil-receiver cases included). *)
Theorem SetVal_last_write_wins w n v v' :
  (SetVal n v;;; SetVal n v') w = SetVal n v' w.
Proof.
  destruct n as [a|]; [|done].
  destruct (nodes w !! a) as [nd|] eqn:Hnd.
  - unfold bind. rewrite (SetVal_unfold _ _ _ v Hnd), (SetVal_unfold _ _ _ v' Hnd).
    case_decide as Hv; [done|].
    rewrite (SetVal_unfold _ _ _ v' (stored_lookup 1 (U v) a nd w)). simpl.
    by rewrite stored_twice.
  - unfold bind, SetVal, bind, read_node. simpl. by rewrite Hnd.
Qed.

(** X14: a setter that returns has written the marker and the payload of
    its node and nothing else: every other field of the node, every other
    node, the [Func] objects, [Debug], the dump output and the container
    memory are as before. *)
Theorem setters_write_only_the_payload w a nd w' :
  nodes w !! a = Some nd →
  (∃ v, SetVal (Some a) v w = Ok tt w') ∨ (∃ x, SetOpt (Some a) x w = Ok tt w') →
  with_nodes (nodes w) w' = w ∧
  (∀ b, b ≠ a → nodes w' !! b = nodes w !! b) ∧
  ∃ nd', nodes w' !! a = Some nd' ∧
         with_E (E nd) (with_hasVal (hasVal nd) nd') = nd.
Proof.
  intros Hnd Hcall.
  assert (w' = w ∨ ∃ h e, w' = stored h e a nd w) as [->|(h & e & ->)].
  { destruct Hcall as [[v Hv]|[x Hx]].
    - rewrite (SetVal_unfold _ _ _ _ Hnd) in Hv.
      case_decide; [done|]. injection Hv as <-. eauto.
    - rewrite (SetOpt_unfold _ _ _ _ Hnd) in Hx.
      repeat case_decide; try done; injection Hx as <-; eauto. }
  - split; [by destruct w|]. split; [done|].
    exists nd. split; [done|]. by destruct nd.
  - split; [by destruct w|]. split.
    + intros b Hb. simpl. by rewrite lookup_insert_ne.
    + eexists. split; [apply stored_lookup|]. apply payload_restored.
Qed.

Lemma exec_keeps_kind w a nd c :
  nodes w !! a = Some nd →
  ∃ nd', nodes (final (exec (Some a) c w)) !! a = Some nd' ∧
         (hasVal nd = 1 → hasVal nd' = 1) ∧
         (hasVal nd = -1 → hasVal nd' = -1) ∧
         (hasVal nd = 0 → hasVal nd' = 0 ∨ hasVal nd' = 1 ∨ hasVal nd' = -1).
Proof.
  intros Hnd. destruct c as [|v| |x]; simpl.
  - unfold bind. rewrite (Val_unfold _ _ _ Hnd). simpl.
    exists nd. repeat split; eauto.
  - rewrite (SetVal_unfold _ _ _ _ Hnd). case_decide; simpl.
    + exists nd. repeat split; eauto.
    + rewrite lookup_insert_eq. eexists. split; [done|]. simpl.
      repeat split; intros; lia.
  - unfold bind. rewrite (Opt_unfold _ _ _ Hnd). simpl.
    exists nd. repeat split; eauto.
  - rewrite (SetOpt_unfold _ _ _ _ Hnd). repeat case_decide; simpl.
    + exists nd. repeat split; eauto.
    + exists nd. repeat split; eauto.
    + rewrite lookup_insert_eq. eexists. split; [done|]. simpl.
      repeat split; intros; lia.
Qed.

Lemma run_keeps_kind cs : ∀ w a nd,
  nodes w !! a = Some nd →
  ∃ nd', nodes (final (run (Some a) cs w)) !! a = Some nd' ∧
         (hasVal nd = 1 → hasVal nd' = 1) ∧
         (hasVal nd = -1 → hasVal nd' = -1) ∧
         (hasVal nd = 0 → hasVal nd' = 0 ∨ hasVal nd' = 1 ∨ hasVal nd' = -1).
Proof.
  induction cs as [|c cs IH]; intros w a nd Hnd; simpl.
  - exists nd. repeat split; eauto.
  - destruct (exec_keeps_kind w a nd c Hnd) as (nd1 & Hnd1 & Hp & Hm & Hz).
    unfold bind.
    destruct (exec (Some a) c w) as [[] w1|msg w1|e w1]; simpl in *;
      [|by eauto 10..].
    destruct (IH w1 a nd1 Hnd1) as (nd2 & Hnd2 & Hp2 & Hm2 & Hz2).
    exists nd2. split; [done|]. repeat split.
    + intros Hv. by apply Hp2, Hp.
    + intros Hv. by apply Hm2, Hm.
    + intros Hv. destruct (Hz Hv) as [H0|[H1|H1]].
      * by apply Hz2.
      * right. left. by apply Hp2.
      * right. right. by apply Hm2.
Qed.

(** X15: the kind of payload a node has is permanent.  Over any sequence
    of [Val], [SetVal], [Opt] and [SetOpt] calls on it, wherever the
    sequence stops, a marker that is value-set stays value-set, a marker
    that is optimizer-data-set stays so, and a marker that is unset ends as
    one of the three. *)
Theorem marker_kind_is_permanent w a nd cs :
  nodes w !! a = Some nd →
  hasVal nd = 1 ∨ hasVal nd = -1 ∨ hasVal nd = 0 →
  ∃ h, marker (Some a) (final (run (Some a) cs w)) = Some h ∧
       (hasVal nd ≠ 0 → h = hasVal nd) ∧
       (h = 0 ∨ h = 1 ∨ h = -1).
Proof.
  intros Hnd Hrange.
  destruct (run_keeps_kind cs w a nd Hnd) as (nd' & Hnd' & Hp & Hm & Hz).
  exists (hasVal nd'). rewrite (marker_lookup _ _ _ Hnd').
  split; [done|]. destruct Hrange as [Hv|[Hv|Hv]].
  - rewrite (Hp Hv). split; [by rewrite Hv|]. tauto.
  - rewrite (Hm Hv). split; [by rewrite Hv|]. tauto.
  - split; [by rewrite Hv|]. by apply Hz.
Qed.

(** X16: a node never shows both payloads: whatever its marker and stored
    payload, [Val()] returns the empty [Val] or [Opt()] returns nil. *)
Theorem Val_and_Opt_exclude_each_other w a nd :
  nodes w !! a = Some nd →
  Val (Some a) w = Ok (mkVal None) w ∨ Opt (Some a) w = Ok None w.
Proof.
  intros Hnd. rewrite (Val_unfold _ _ _ Hnd), (Opt_unfold _ _ _ Hnd).
  destruct (decide (hasVal nd = 1)) as [Hv|Hv].
  - right. by rewrite decide_True by lia.
  - left. by rewrite decide_True.
Qed.

End PayloadMore.

(** ** The further properties at sample states *)

Lemma Index_reads_Slice_witness :
  Index (mkNodes (Some 10%positive)) 1 m_xy_z = Ok (Some 22%positive) m_xy_z ∧
  Addr (mkNodes (Some 10%positive)) 1 m_xy_z = Ok (Some 10%positive, 1) m_xy_z ∧
  Second (mkNodes (Some 10%positive)) m_xy_z = Ok (Some 22%positive) m_xy_z ∧
  First (mkNodes (Some 10%positive)) m_xy_z = Ok (Some 21%positive) m_xy_z.
Proof.
  destruct (Index_reads_Slice m_xy_z (mkNodes (Some 10%positive))
              [Some 21%positive; Some 22%positive] 1 (Some 22%positive)
              eq_refl ltac:(lia) eq_refl) as (HI & HA & _ & HS).
  destruct (Index_reads_Slice m_xy_z (mkNodes (Some 10%positive))
              [Some 21%positive; Some 22%positive] 0 (Some 21%positive)
              eq_refl ltac:(lia) eq_refl) as (_ & _ & HF & _).
  split; [exact HI|]. split; [exact HA|]. split; [apply HS|apply HF]; reflexivity.
Defined.

Lemma SetIndex_then_Index_witness :
  ∃ m', SetIndex (mkNodes (Some 10%positive)) 1 (Some 23%positive) m_xy_z
          = Ok tt m' ∧
        Slice (mkNodes (Some 10%positive)) m'
          = Ok [Some 21%positive; Some 23%positive] m' ∧
        Index (mkNodes (Some 10%positive)) 1 m' = Ok (Some 23%positive) m' ∧
        Len (mkNodes (Some 10%positive)) m' = Ok 2 m' ∧
        contents (Some 1%positive) m'
          = Ok [Some 21%positive; Some 23%positive] m'.
Proof.
  destruct (SetIndex_then_Index m_xy_z (mkNodes (Some 10%positive))
              [Some 21%positive; Some 22%positive] 1 (Some 23%positive)
              eq_refl ltac:(unfold len; simpl; lia))
    as (m' & HS & HSl & HI & HL & Hvar).
  exists m'. split; [exact HS|]. split; [exact HSl|]. split; [exact HI|].
  split; [exact HL|]. apply Hvar. reflexivity.
Defined.

Lemma Set1_singleton_witness :
  ∃ m' c', Set1 (Some 1%positive) (Some 23%positive) m_xy_z = Ok tt m' ∧
           Set_ (Some 1%positive) [Some 23%positive] m_xy_z = Ok tt m' ∧
           contents (Some 1%positive) m' = Ok [Some 23%positive] m' ∧
           length_at (Some 1%positive) m' = Ok 1 m' ∧
           read_var (Some 1%positive) m' = Ok c' m' ∧
           First c' m' = Ok (Some 23%positive) m'.
Proof.
  apply (Set1_singleton m_xy_z 1 (mkNodes (Some 10%positive))). reflexivity.
Defined.

Lemma MoveNodes_moves_witness :
  ∃ m', MoveNodes (Some 1%positive) (Some 2%positive) m_xy_z = Ok tt m' ∧
        contents (Some 1%positive) m' = Ok [Some 23%positive] m' ∧
        length_at (Some 2%positive) m' = Ok 0 m' ∧
        vars m' !! 1%positive = Some (mkNodes (Some 11%positive)) ∧
        heap m' = heap m_xy_z.
Proof.
  apply (MoveNodes_moves m_xy_z 1 2 (mkNodes (Some 10%positive)));
    [discriminate | reflexivity | reflexivity | reflexivity].
Defined.

Lemma self_move_empties_witness :
  (∃ m', MoveNodes (Some 1%positive) (Some 1%positive) m_xy_z = Ok tt m' ∧
         length_at (Some 1%positive) m' = Ok 0 m') ∧
  (∃ m', AppendNodes (Some 1%positive) (Some 1%positive) m_xy_z = Ok tt m' ∧
         length_at (Some 1%positive) m' = Ok 0 m').
Proof.
  apply (self_move_empties m_xy_z (Some 1%positive)
           [Some 21%positive; Some 22%positive]). reflexivity.
Defined.

Lemma Append_seen_by_copies_witness :
  (∃ m', Append (Some 2%positive) [Some 21%positive] m_xy_z = Ok tt m' ∧
         Slice (mkNodes (Some 11%positive)) m'
           = Ok [Some 23%positive; Some 21%positive] m') ∧
  (∃ m', Append (Some 1%positive) [Some 21%positive] m_nil = Ok tt m' ∧
         contents (Some 1%positive) m' = Ok [Some 21%positive] m' ∧
         Slice zeroNodes m' = Ok [] m').
Proof.
  split.
  - destruct (Append_seen_by_copies m_xy_z 2 (mkNodes (Some 11%positive))
                [Some 23%positive] [Some 21%positive] eq_refl eq_refl)
      as (m' & HA & _ & Hsome & _).
    exists m'. split; [exact HA|]. apply Hsome. discriminate.
  - destruct (Append_seen_by_copies m_nil 1 zeroNodes [] [Some 21%positive]
                eq_refl eq_refl) as (m' & HA & HC & _ & Hnone).
    exists m'. split; [exact HA|]. split; [exact HC|]. apply Hnone. reflexivity.
Defined.

Lemma Set_leaves_old_storage_witness :
  ∃ m', Set_ (Some 1%positive) [Some 23%positive] m_xy_z = Ok tt m' ∧
        Slice (mkNodes (Some 10%positive)) m'
          = Ok [Some 21%positive; Some 22%positive] m' ∧
        vars m' !! 2%positive = vars m_xy_z !! 2%positive.
Proof.
  destruct (Set_leaves_old_storage m_xy_z 1 (mkNodes (Some 10%positive))
              [Some 23%positive] eq_refl) as (m' & HS & Hold & Hvars).
  exists m'. split; [exact HS|]. split.
  - apply Hold. reflexivity.
  - apply Hvars. discriminate.
Defined.


Lemma AppendNodes_from_uninitialised_witness :
  AppendNodes None (Some 2%positive) m_nil = Ok tt m_nil.
Proof. apply (AppendNodes_from_uninitialised m_nil None 2). reflexivity. Defined.


Lemma setters_write_only_the_payload_witness :
  with_nodes (nodes w_unset) (stored 1 (Some 4) 1 zeroNode w_unset) = w_unset ∧
  (∀ b, b ≠ 1%positive →
        nodes (stored 1 (Some 4) 1 zeroNode w_unset) !! b = nodes w_unset !! b) ∧
  ∃ nd', nodes (stored 1 (Some 4) 1 zeroNode w_unset) !! 1%positive = Some nd' ∧
         with_E (E zeroNode) (with_hasVal (hasVal (zeroNode (dyn := Z))) nd')
         = zeroNode.
Proof.
  apply (setters_write_only_the_payload w_unset 1 zeroNode); [reflexivity|].
  left. exists (mkVal (Some 4)). reflexivity.
Defined.

Lemma marker_kind_is_permanent_witness :
  marker (Some 1%positive)
    (final (run (Some 1%positive)
              [CallSetOpt None; CallSetVal (mkVal (Some 5));
               CallSetOpt (Some 9); CallVal] w_value)) = Some 1.
Proof.
  destruct (marker_kind_is_permanent w_value 1 (node_with 1 (Some 3))
              [CallSetOpt None; CallSetVal (mkVal (Some 5));
               CallSetOpt (Some 9); CallVal] eq_refl (or_introl eq_refl))
    as (h & Hm & Hkeep & _).
  rewrite Hm. f_equal. apply Hkeep. discriminate.
Defined.

Lemma Val_and_Opt_exclude_each_other_witness :
  Val (Some 1%positive) w_value = Ok (mkVal None) w_value ∨
  Opt (Some 1%positive) w_value = Ok None w_value.
Proof.
  apply (Val_and_Opt_exclude_each_other w_value 1 (node_with 1 (Some 3))).
  reflexivity.
Defined.
